(** * Instant rate and instant delta (m3 query engine, package [temporal])

    A shallow embedding of [src/query/functions/temporal/rate.go] and the
    properties of its window reducer [instantValue] and of the operator
    factory [NewRateOp].

    Go values are modelled as follows.
    - [float64] is Rocq's primitive binary64 type [float]; [math.IsNaN] is
      [is_nan], [<], [-] and [/] are the IEEE operations [ltb], [sub], [div].
    - [int] is [Z]; every index computed by the code lies in [-1, len), so
      no wrap-around can occur.
    - [time.Duration] is an [int64] count of nanoseconds, a [Z].
    - a [[]float64] is a slice header (base address and length) into a
      memory of float64 cells; indexing checks the bounds and panics outside
      them, as the Go runtime does.
    - a Go function body is a computation [Go A]: it takes the memory and
      either returns a value together with the memory it leaves, or panics. *)

From Stdlib Require Import ZArith List String Bool Lia Floats.
Import ListNotations.

Set Implicit Arguments.

(** ** The Go runtime fragment used by the package *)

Module GoRuntime.

Inductive outcome (A : Type) : Type :=
| Returns (a : A)
| Panics (msg : string).
Arguments Panics {A} msg.

(** Memory: float64 cells by address. *)
Definition mem : Type := nat -> float.

Definition Go (A : Type) : Type := mem -> outcome (A * mem).

Definition ret {A} (a : A) : Go A := fun m => Returns (a, m).

Definition bind {A B} (c : Go A) (k : A -> Go B) : Go B :=
  fun m =>
    match c m with
    | Returns (a, m') => k a m'
    | Panics msg => Panics msg
    end.

Definition panic {A} (msg : string) : Go A := fun _ => Panics msg.

(** A slice header; the capacity is never consulted by the package. *)
Record slice : Type := mkSlice { base : nat; len : nat }.

(** [vals[i]] as an r-value. *)
Definition index (vals : slice) (i : Z) : Go float :=
  fun m =>
    if ((0 <=? i) && (i <? Z.of_nat (len vals)))%Z
    then Returns (m (base vals + Z.to_nat i)%nat, m)
    else Panics "index out of range".

(** [vals[i] = v]; the package never uses it, the frame properties below
    are stated against a runtime that has it. *)
Definition store (vals : slice) (i : Z) (v : float) : Go unit :=
  fun m =>
    if ((0 <=? i) && (i <? Z.of_nat (len vals)))%Z
    then Returns (tt, fun a => if (a =? base vals + Z.to_nat i)%nat then v else m a)
    else Panics "index out of range".

(** The sample window a slice denotes in a memory: index 0 is the oldest
    position, index [len - 1] the newest. *)
Definition contents (m : mem) (vals : slice) : list float :=
  map m (seq (base vals) (len vals)).

(** A memory holding the list [w] from address [0] on. *)
Definition mem_of_list (w : list float) : mem := fun a => nth a w nan.

Definition slice_of_list (w : list float) : slice := mkSlice 0 (List.length w).

(** The value a computation returns, the memory forgotten. *)
Definition value {A} (o : outcome (A * mem)) : outcome A :=
  match o with
  | Returns (a, _) => Returns a
  | Panics msg => Panics msg
  end.

(** A computation that leaves every cell of every memory as it found it. *)
Definition preserves_mem {A} (c : Go A) : Prop :=
  forall m, match c m with
            | Returns (_, m') => m' = m
            | Panics _ => True
            end.

(** Running a list of computations one after the other. *)
Fixpoint sequence_ {A} (cs : list (Go A)) : Go unit :=
  match cs with
  | [] => ret tt
  | c :: cs' => bind c (fun _ => sequence_ cs')
  end.

End GoRuntime.
Import GoRuntime.

Declare Scope go_scope.
Delimit Scope go_scope with go.
Notation "x <- c ;; k" := (bind c (fun x => k))
  (at level 100, c at next level, right associativity) : go_scope.
Notation "c ;;; k" := (bind c (fun _ => k))
  (at level 100, right associativity) : go_scope.

(** ** Package [math] and conversions *)

(** [float64(x)] for an [int64] [x]: round to nearest, ties to even. *)
Definition float64_of_int64 (x : Z) : float :=
  SF2Prim (binary_normalize prec emax x 0 false).

(** [math.Pow10(n)] for [0 <= n < 32], where the result is the table entry
    [1e n], the binary64 value nearest to [10 ^ n]. *)
Definition Pow10 (n : Z) : float :=
  SF2Prim (binary_normalize prec emax (10 ^ n) 0 false).

(** [math.NaN()]. *)
Definition NaN : float := nan.

(** [math.IsNaN(f)]. *)
Definition IsNaN (f : float) : bool := is_nan f.

(** ** Package [time] *)

Definition Duration : Type := Z.
Definition Nanosecond : Duration := 1%Z.
Definition Second : Duration := 1000000000%Z.

(** ** rate.go *)

Definition IRateTemporalType : string := "irate".
Definition IDeltaTemporalType : string := "idelta".

Open Scope go_scope.

(** The loop of [findNonNanIdx] with [n] iterations left: the loop variable
    [i] is [n - 1], and the loop ends when [i] drops below [0]. *)
Fixpoint findNonNanIdx_loop (vals : slice) (n : nat) : Go Z :=
  match n with
  | O => ret (-1)%Z
  | S k =>
      v <- index vals (Z.of_nat k) ;;
      if negb (IsNaN v) then ret (Z.of_nat k)
      else findNonNanIdx_loop vals k
  end.

Definition findNonNanIdx (vals : slice) (startingIdx : Z) : Go Z :=
  findNonNanIdx_loop vals (Z.to_nat (startingIdx + 1)).

Definition instantValue (values : slice) (isRate : bool) (stepSize : Duration)
  : Go float :=
  let valuesLen := Z.of_nat (len values) in
  if (valuesLen <? 2)%Z then ret NaN
  else
    let nonNanIdx := (valuesLen - 1)%Z in
    nonNanIdx <- findNonNanIdx values nonNanIdx ;;
    if (nonNanIdx <? 1)%Z then ret NaN
    else
      lastSample <- index values nonNanIdx ;;
      nonNanIdx <- findNonNanIdx values (nonNanIdx - 1) ;;
      if (nonNanIdx =? -1)%Z then ret NaN
      else
        previousSample <- index values nonNanIdx ;;
        let resultValue :=
          if isRate && (lastSample <? previousSample)%float
          then lastSample
          else (lastSample - previousSample)%float in
        let resultValue :=
          if isRate
          then (resultValue / (float64_of_int64 stepSize / Pow10 9))%float
          else resultValue in
        ret resultValue.

(** Running the reducer on a window given as a list. *)
Definition reduce_list (w : list float) (isRate : bool) (stepSize : Duration)
  : outcome float :=
  value (instantValue (slice_of_list w) isRate stepSize (mem_of_list w)).


(** One call of the reducer, as an entry of a call sequence. *)
Definition reducer_call (c : slice * bool * Duration) : Go float :=
  let '(values, isRate, stepSize) := c in instantValue values isRate stepSize.

(** The step expressed in seconds, as the last statement of [instantValue]
    computes it: [float64(stepSize) / math.Pow10(9)]. *)
Definition seconds (stepSize : Duration) : float :=
  (float64_of_int64 stepSize / Pow10 9)%float.

Section Temporal.

(** Package [transform] is imported by rate.go; of its types the file
    uses only the pointer type [*transform.Controller], the field
    [TimeSpec] of [transform.Options] and the field [Step] of
    [transform.TimeSpec]. *)
Variable Controller : Type.
Variable TimeSpec : Type.
Variable Step : TimeSpec -> Duration.
Variable Options : Type.
Variable Options_TimeSpec : Options -> TimeSpec.

(** An element of [[]interface{}] and the type of the last argument of
    [newBaseOp], which rate.go always passes as [nil]. *)
Variable iface : Type.
Variable aux : Type.

(** [error]: [nil] is [None]. *)
Definition error : Type := option string.

(** [fmt.Errorf(format, s)] for a format that ends in its only verb [%s];
    [prefix] is the format up to the verb. *)
Definition Errorf (prefix s : string) : error := Some (prefix ++ s)%string.

(** [baseOp], of which rate.go reads the field [operatorType]. *)
Record baseOp : Type := mkBaseOp { operatorType : string }.

Record rateNode : Type := mkRateNode {
  op : baseOp;
  controller : Controller;
  timeSpec : TimeSpec
}.

(** The interface [Processor]. *)
Class Processor (T : Type) : Type := { Process : T -> slice -> Go float }.

Definition newRateNode (op : baseOp) (controller : Controller) (opts : Options)
  : rateNode :=
  {| op := op; controller := controller; timeSpec := Options_TimeSpec opts |}.

Definition rateNode_Process (r : rateNode) (values : slice) : Go float :=
  if (operatorType (op r) =? IRateTemporalType)%string
  then instantValue values true (Step (timeSpec r))
  else if (operatorType (op r) =? IDeltaTemporalType)%string
  then instantValue values false (Step (timeSpec r))
  else panic "unknown rate type".

#[export] Instance rateNode_Processor : Processor rateNode :=
  {| Process := rateNode_Process |}.

Definition MakeProcessor : Type := baseOp -> Controller -> Options -> rateNode.

(** The [transform.Params] value the factory hands back: the operator and
    the processor constructor it was built with. *)
Record Params : Type := mkParams { params_op : baseOp; processorFn : MakeProcessor }.

(** Modelled from the spec: [newBaseOp] and the construction of a processor
    from the parameters it returns live in base.go, which is not among the
    sources.  Spec 4.1: on success the factory yields a processor closed
    over the resolved mode and the step of the pipeline's timing
    specification; spec 7: an unknown mode token is the only
    construction-time failure. *)
Definition newBaseOp (args : list iface) (operatorType : string)
           (processorFn : MakeProcessor) (_ : option aux)
  : option Params * error :=
  (Some {| params_op := {| operatorType := operatorType |};
           processorFn := processorFn |}, None).

(** Modelled from the spec: the processor built from the parameters for one
    series (spec 2: a per-series processor bound to the mode and to the
    series' step size). *)
Definition Node (p : Params) (controller : Controller) (opts : Options) : rateNode :=
  processorFn p (params_op p) controller opts.

Definition NewRateOp (args : list iface) (optype : string) : option Params * error :=
  if (optype =? IRateTemporalType)%string || (optype =? IDeltaTemporalType)%string
  then newBaseOp args optype newRateNode None
  else (None, Errorf "unknown rate type: " optype).

(** ** The reducer as the specification words it *)

(** The non-gap values of a window, oldest first. *)
Definition nonGaps (w : list float) : list float :=
  filter (fun v => negb (is_nan v)) w.

(** The two most recent non-gap values, [(previous, last)]. *)
Definition lastTwo (w : list float) : option (float * float) :=
  match rev (nonGaps w) with
  | last :: previous :: _ => Some (previous, last)
  | _ => None
  end.

(** Steps 5 to 8 of the algorithm of spec 4.2. *)
Definition combine_spec (isRate : bool) (stepSize : Duration) (previous last : float)
  : float :=
  let raw_result :=
    if isRate && (last <? previous)%float then last else (last - previous)%float in
  if isRate then (raw_result / seconds stepSize)%float else raw_result.

Definition reduce_spec (w : list float) (isRate : bool) (stepSize : Duration) : float :=
  match lastTwo w with
  | Some (previous, last) => combine_spec isRate stepSize previous last
  | None => nan
  end.

(** The value at position [k] of the window a slice denotes. *)
Definition position (m : mem) (vals : slice) (k : nat) : float :=
  m (base vals + k)%nat.

Unset Implicit Arguments.

(** * Properties *)

(** ** Slices and their contents *)

Lemma contents_length (m : mem) (vals : slice) :
  List.length (contents m vals) = len vals.
Proof. unfold contents. now rewrite length_map, length_seq. Qed.

Lemma contents_nth_error (m : mem) (vals : slice) (k : nat) :
  (k < len vals)%nat ->
  nth_error (contents m vals) k = Some (m (base vals + k)%nat).
Proof.
  intros Hk. unfold contents.
  rewrite nth_error_map, nth_error_seq.
  destruct (Nat.ltb_spec k (len vals)) as [_ | Hge]; [reflexivity | lia].
Qed.

Lemma contents_of_list (w : list float) :
  contents (mem_of_list w) (slice_of_list w) = w.
Proof.
  apply nth_error_ext. intros k.
  destruct (Nat.lt_ge_cases k (List.length w)) as [Hk | Hk].
  - rewrite contents_nth_error by exact Hk. cbn.
    unfold mem_of_list. symmetry. now apply nth_error_nth'.
  - transitivity (@None float); [| symmetry]; apply nth_error_None.
    + now rewrite contents_length.
    + exact Hk.
Qed.

(** Reading the position just after a prefix of the window. *)
Lemma index_split (m : mem) (vals : slice) (pre suf : list float) (v : float) :
  contents m vals = pre ++ v :: suf ->
  index vals (Z.of_nat (List.length pre)) m = Returns (v, m).
Proof.
  intros Hw.
  assert (Hlen : (List.length pre < len vals)%nat).
  { rewrite <- (contents_length m vals), Hw, length_app. cbn. lia. }
  pose proof (contents_nth_error m vals _ Hlen) as Hnth.
  rewrite Hw, nth_error_app2, Nat.sub_diag in Hnth by lia.
  cbn in Hnth. injection Hnth as Hv.
  unfold index.
  replace ((0 <=? Z.of_nat (List.length pre)) && (Z.of_nat (List.length pre) <? Z.of_nat (len vals)))%Z
    with true by (symmetry; apply andb_true_iff; split; [apply Z.leb_le | apply Z.ltb_lt]; lia).
  now rewrite Nat2Z.id, <- Hv.
Qed.

(** ** The backward scan *)

Definition all_gaps (l : list float) : Prop := Forall (fun v => is_nan v = true) l.

(** From a non-gap value followed by gaps only, the scan stops on the value. *)
Lemma loop_found (m : mem) (vals : slice) (pre : list float) (x : float) :
  is_nan x = false ->
  forall gaps suf,
    all_gaps gaps ->
    contents m vals = pre ++ x :: gaps ++ suf ->
    findNonNanIdx_loop vals (List.length (pre ++ x :: gaps)) m
    = Returns (Z.of_nat (List.length pre), m).
Proof.
  intros Hx gaps. induction gaps as [| g gaps IH] using rev_ind; intros suf Hg Hw.
  - rewrite length_app, Nat.add_comm. cbn [List.length Nat.add findNonNanIdx_loop].
    unfold bind. rewrite (index_split _ _ _ _ _ Hw). unfold IsNaN. now rewrite Hx.
  - apply Forall_app in Hg as [Hg Hlast]. apply Forall_inv in Hlast.
    rewrite <- app_assoc in Hw. cbn [app] in Hw.
    replace (pre ++ x :: gaps ++ [g]) with ((pre ++ x :: gaps) ++ [g])
      by (now rewrite <- app_assoc).
    rewrite length_app, Nat.add_comm. cbn [List.length Nat.add findNonNanIdx_loop].
    unfold bind.
    rewrite (index_split m vals (pre ++ x :: gaps) suf g)
      by (now rewrite <- app_assoc).
    unfold IsNaN. rewrite Hlast. cbn [negb].
    now apply (IH (g :: suf)).
Qed.

(** Over gaps only, the scan runs off the front of the window. *)
Lemma loop_none (m : mem) (vals : slice) (gaps : list float) :
  forall suf,
    all_gaps gaps ->
    contents m vals = gaps ++ suf ->
    findNonNanIdx_loop vals (List.length gaps) m = Returns ((-1)%Z, m).
Proof.
  induction gaps as [| g gaps IH] using rev_ind; intros suf Hg Hw.
  - reflexivity.
  - apply Forall_app in Hg as [Hg Hlast]. apply Forall_inv in Hlast.
    rewrite <- app_assoc in Hw. cbn [app] in Hw.
    rewrite length_app, Nat.add_comm. cbn [List.length Nat.add findNonNanIdx_loop].
    unfold bind. rewrite (index_split _ _ _ _ _ Hw).
    unfold IsNaN. rewrite Hlast. cbn [negb].
    now apply (IH (g :: suf)).
Qed.

(** ** Windows by their most recent non-gap value *)

Lemma split_last_nongap (w : list float) :
  all_gaps w \/
  exists pre x gaps, w = pre ++ x :: gaps /\ is_nan x = false /\ all_gaps gaps.
Proof.
  induction w as [| a w IH] using rev_ind.
  - left. constructor.
  - destruct (is_nan a) eqn:Ha.
    + destruct IH as [Hall | (pre & x & gaps & -> & Hx & Hg)].
      * left. apply Forall_app. split; [exact Hall | now constructor].
      * right. exists pre, x, (gaps ++ [a]). repeat split.
        -- now rewrite <- app_assoc.
        -- exact Hx.
        -- apply Forall_app. split; [exact Hg | now constructor].
    + right. exists w, a, []. repeat split; [exact Ha | constructor].
Qed.

Lemma nonGaps_app (u v : list float) : nonGaps (u ++ v) = nonGaps u ++ nonGaps v.
Proof. apply filter_app. Qed.

Lemma nonGaps_all_gaps (w : list float) : all_gaps w -> nonGaps w = [].
Proof.
  induction 1 as [| a w Ha _ IH]; [reflexivity |].
  cbn. now rewrite Ha.
Qed.

Lemma nonGaps_split (pre : list float) (x : float) (gaps : list float) :
  is_nan x = false -> all_gaps gaps ->
  nonGaps (pre ++ x :: gaps) = nonGaps pre ++ [x].
Proof.
  intros Hx Hg. rewrite nonGaps_app. f_equal.
  unfold nonGaps in *. cbn [filter]. rewrite Hx. cbn [negb].
  f_equal. exact (nonGaps_all_gaps _ Hg).
Qed.

Lemma nonGaps_length (w : list float) :
  (List.length (nonGaps w) <= List.length w)%nat.
Proof. apply filter_length_le. Qed.

Lemma lastTwo_None (w : list float) :
  lastTwo w = None <-> (List.length (nonGaps w) < 2)%nat.
Proof.
  unfold lastTwo. rewrite <- (length_rev (nonGaps w)).
  destruct (rev (nonGaps w)) as [| a [| b l]]; cbn; split; intros H;
    try reflexivity; try lia; discriminate.
Qed.

Lemma lastTwo_split (pre : list float) (y : float) (gaps1 : list float)
      (x : float) (gaps2 : list float) :
  is_nan y = false -> all_gaps gaps1 -> is_nan x = false -> all_gaps gaps2 ->
  lastTwo (pre ++ y :: gaps1 ++ x :: gaps2) = Some (y, x).
Proof.
  intros Hy Hg1 Hx Hg2. unfold lastTwo.
  replace (pre ++ y :: gaps1 ++ x :: gaps2) with ((pre ++ y :: gaps1) ++ x :: gaps2)
    by (now rewrite <- app_assoc).
  rewrite (nonGaps_split _ _ _ Hx Hg2), (nonGaps_split _ _ _ Hy Hg1).
  now rewrite !rev_app_distr.
Qed.

(** The converse: a window with two most recent non-gap values has this shape. *)
Lemma lastTwo_Some (w : list float) (previous last : float) :
  lastTwo w = Some (previous, last) ->
  exists pre gaps1 gaps2,
    w = pre ++ previous :: gaps1 ++ last :: gaps2 /\
    is_nan previous = false /\ all_gaps gaps1 /\
    is_nan last = false /\ all_gaps gaps2.
Proof.
  intros H.
  destruct (split_last_nongap w) as [Hall | (pre & x & gaps2 & -> & Hx & Hg2)].
  { unfold lastTwo in H. now rewrite (nonGaps_all_gaps _ Hall) in H. }
  destruct (split_last_nongap pre) as [Hall | (pre' & y & gaps1 & -> & Hy & Hg1)].
  { unfold lastTwo in H.
    rewrite (nonGaps_split _ _ _ Hx Hg2), (nonGaps_all_gaps _ Hall) in H. discriminate. }
  rewrite <- app_assoc in H. cbn [app] in H.
  rewrite (lastTwo_split _ _ _ _ _ Hy Hg1 Hx Hg2) in H. injection H as -> ->.
  exists pre', gaps1, gaps2. rewrite <- app_assoc. now repeat split.
Qed.

(** ** The reducer computes what the specification words *)

Lemma findNonNanIdx_newest (m : mem) (vals : slice) :
  findNonNanIdx vals (Z.of_nat (len vals) - 1) m
  = findNonNanIdx_loop vals (List.length (contents m vals)) m.
Proof.
  unfold findNonNanIdx. rewrite contents_length. f_equal. f_equal. lia.
Qed.

Lemma findNonNanIdx_before (m : mem) (vals : slice) (k : nat) :
  findNonNanIdx vals (Z.of_nat k - 1) m = findNonNanIdx_loop vals k m.
Proof. unfold findNonNanIdx. f_equal. f_equal. lia. Qed.

Theorem instantValue_reduce (m : mem) (values : slice) (isRate : bool)
        (stepSize : Duration) :
  instantValue values isRate stepSize m
  = Returns (reduce_spec (contents m values) isRate stepSize, m).
Proof.
  unfold instantValue, reduce_spec.
  destruct (Z.ltb_spec (Z.of_nat (len values)) 2) as [Hshort | Hlong].
  { replace (lastTwo (contents m values)) with (@None (float * float)); [reflexivity |].
    symmetry. apply lastTwo_None.
    pose proof (nonGaps_length (contents m values)) as Hle.
    rewrite contents_length in Hle. lia. }
  unfold bind at 1. rewrite findNonNanIdx_newest.
  destruct (split_last_nongap (contents m values))
    as [Hall | (pre & x & gaps2 & Hw & Hx & Hg2)].
  { rewrite (loop_none m values _ [] Hall) by (now rewrite app_nil_r).
    cbn. unfold lastTwo. now rewrite (nonGaps_all_gaps _ Hall). }
  rewrite Hw at 1.
  rewrite (loop_found m values pre x Hx gaps2 [] Hg2) by (now rewrite app_nil_r).
  destruct (Z.ltb_spec (Z.of_nat (List.length pre)) 1) as [Hfront | Hback].
  { destruct pre; [| cbn in Hfront; lia].
    cbn. unfold lastTwo. rewrite Hw.
    now rewrite (nonGaps_split [] x gaps2 Hx Hg2). }
  unfold bind at 1. rewrite (index_split _ _ _ _ _ Hw).
  unfold bind at 1. rewrite findNonNanIdx_before.
  destruct (split_last_nongap pre) as [Hall | (pre' & y & gaps1 & Hpre & Hy & Hg1)].
  { rewrite (loop_none m values pre (x :: gaps2) Hall Hw).
    cbn. unfold lastTwo.
    now rewrite Hw, (nonGaps_split _ _ _ Hx Hg2), (nonGaps_all_gaps _ Hall). }
  subst pre. rewrite <- app_assoc in Hw. cbn [app] in Hw.
  rewrite (loop_found m values pre' y Hy gaps1 (x :: gaps2) Hg1 Hw).
  destruct (Z.eqb_spec (Z.of_nat (List.length pre')) (-1)) as [Hneg | _]; [lia |].
  unfold bind. rewrite (index_split _ _ _ _ _ Hw).
  rewrite Hw, (lastTwo_split _ _ _ _ _ Hy Hg1 Hx Hg2).
  reflexivity.
Qed.

(** ** Comparison of float64 values *)

Lemma SFcompare_antisym (x y : spec_float) :
  SFcompare y x = option_map CompOpp (SFcompare x y).
Proof.
  destruct x as [sx | sx | | sx mx ex], y as [sy | sy | | sy my ey];
    try destruct sx; try destruct sy; try reflexivity.
  - cbn. rewrite (Z.compare_antisym ey ex).
    destruct (ey ?= ex)%Z; cbn; try reflexivity.
    change (Pos.compare_cont Eq my mx) with (my ?= mx)%positive.
    change (Pos.compare_cont Eq mx my) with (mx ?= my)%positive.
    now rewrite (Pos.compare_antisym mx my), CompOpp_involutive.
  - cbn. rewrite (Z.compare_antisym ey ex).
    destruct (ey ?= ex)%Z; cbn; try reflexivity.
    change (Pos.compare_cont Eq my mx) with (my ?= mx)%positive.
    change (Pos.compare_cont Eq mx my) with (mx ?= my)%positive.
    now rewrite (Pos.compare_antisym mx my).
Qed.

(** [x >= y] excludes [x < y]. *)
Lemma geb_not_ltb (x y : float) : (y <=? x)%float = true -> (x <? y)%float = false.
Proof.
  rewrite leb_spec, ltb_spec. unfold SFleb, SFltb.
  rewrite (SFcompare_antisym (Prim2SF x) (Prim2SF y)).
  destruct (SFcompare (Prim2SF x) (Prim2SF y)) as [[] |]; cbn; congruence.
Qed.

Lemma is_nan_Prim2SF (x : float) : is_nan x = false -> Prim2SF x <> S754_nan.
Proof.
  unfold is_nan. rewrite eqb_spec. intros H E. rewrite E in H. discriminate H.
Qed.

Lemma SFcompare_defined (x y : spec_float) :
  x <> S754_nan -> y <> S754_nan -> exists c, SFcompare x y = Some c.
Proof.
  intros Hx Hy.
  destruct x as [sx | sx | | sx mx ex], y as [sy | sy | | sy my ey];
    try congruence; cbn; eexists; reflexivity.
Qed.

(** On values that are not NaN, [x >= y] is the negation of [x < y]. *)
Lemma not_ltb_geb (x y : float) :
  is_nan x = false -> is_nan y = false ->
  (x <? y)%float = false -> (y <=? x)%float = true.
Proof.
  intros Hx%is_nan_Prim2SF Hy%is_nan_Prim2SF.
  rewrite leb_spec, ltb_spec. unfold SFleb, SFltb.
  rewrite (SFcompare_antisym (Prim2SF x) (Prim2SF y)).
  destruct (SFcompare_defined _ _ Hx Hy) as [c ->].
  destruct c; cbn; congruence.
Qed.

(** ** The window reducer *)

(** The reducer run on the windows of spec 8. *)
Example run_rate : reduce_list [10; 20]%float true Second = Returns 10%float.
Proof. vm_compute. reflexivity. Qed.
Example run_reset : reduce_list [50; 5]%float true Second = Returns 5%float.
Proof. vm_compute. reflexivity. Qed.
Example run_delta : reduce_list [50; 5]%float false Second = Returns (-45)%float.
Proof. vm_compute. reflexivity. Qed.
Example run_gaps : reduce_list [10; nan; nan; 40]%float true Second = Returns 30%float.
Proof. vm_compute. reflexivity. Qed.
Example run_one : reduce_list [nan; 7; nan]%float true Second = Returns nan.
Proof. vm_compute. reflexivity. Qed.


(** C1: a window of fewer than two positions, or with fewer than two non-gap
    values whatever its length, reduces to the undefined marker NaN, in Rate
    and in Delta mode and for every step. *)
Theorem instantValue_undefined (m : mem) (values : slice) (isRate : bool)
        (stepSize : Duration) :
  (List.length (contents m values) < 2)%nat \/
  (List.length (nonGaps (contents m values)) < 2)%nat ->
  instantValue values isRate stepSize m = Returns (NaN, m).
Proof.
  intros H. rewrite instantValue_reduce. unfold reduce_spec.
  replace (lastTwo (contents m values)) with (@None (float * float)); [reflexivity |].
  symmetry. apply lastTwo_None.
  pose proof (nonGaps_length (contents m values)). lia.
Qed.

Lemma instantValue_undefined_witness :
  instantValue (slice_of_list [nan; 7; nan]%float) true Second
               (mem_of_list [nan; 7; nan]%float)
  = Returns (NaN, mem_of_list [nan; 7; nan]%float).
Proof.
  apply instantValue_undefined. right. vm_compute. constructor.
Defined.

(** C2: in Rate mode, when the two most recent non-gap values satisfy
    [last < previous], the reducer returns [last] divided by the step in
    seconds; the window [50.0, 5.0] with a step of one second gives [5.0],
    not [(5 - 50) / 1]. *)
Theorem rate_counter_reset :
  (forall (m : mem) (values : slice) (stepSize : Duration) (previous last : float),
      lastTwo (contents m values) = Some (previous, last) ->
      (last <? previous)%float = true ->
      instantValue values true stepSize m
      = Returns ((last / seconds stepSize)%float, m)) /\
  reduce_list [50; 5]%float true Second = Returns 5%float /\
  reduce_list [50; 5]%float true Second
  <> Returns ((5 - 50) / seconds Second)%float.
Proof.
  split; [| split].
  - intros m values stepSize previous last Hw Hlt.
    rewrite instantValue_reduce. unfold reduce_spec, combine_spec.
    now rewrite Hw, Hlt.
  - vm_compute. reflexivity.
  - vm_compute. discriminate.
Qed.

Lemma rate_counter_reset_witness :
  instantValue (slice_of_list [50; nan; 5]%float) true 250000000%Z
               (mem_of_list [50; nan; 5]%float)
  = Returns ((5 / seconds 250000000%Z)%float, mem_of_list [50; nan; 5]%float).
Proof.
  apply (proj1 rate_counter_reset) with (previous := 50%float);
    vm_compute; reflexivity.
Defined.

(** C3: in Rate mode, when the two most recent non-gap values satisfy
    [last >= previous], the reducer returns [last - previous] divided by the
    step in seconds, the step in nanoseconds over [10^9]; the window
    [10.0, 20.0] with a step of one second gives [10.0]. *)
Theorem rate_no_reset :
  (forall (m : mem) (values : slice) (stepSize : Duration) (previous last : float),
      lastTwo (contents m values) = Some (previous, last) ->
      (previous <=? last)%float = true ->
      instantValue values true stepSize m
      = Returns (((last - previous) / seconds stepSize)%float, m)) /\
  (forall stepSize : Duration,
      seconds stepSize = (float64_of_int64 stepSize / 1000000000)%float) /\
  reduce_list [10; 20]%float true Second = Returns 10%float.
Proof.
  split; [| split].
  - intros m values stepSize previous last Hw Hge.
    rewrite instantValue_reduce. unfold reduce_spec, combine_spec.
    now rewrite Hw, (geb_not_ltb _ _ Hge).
  - intros stepSize. reflexivity.
  - vm_compute. reflexivity.
Qed.

Lemma rate_no_reset_witness :
  instantValue (slice_of_list [10; 25; nan]%float) true 500000000%Z
               (mem_of_list [10; 25; nan]%float)
  = Returns (((25 - 10) / seconds 500000000%Z)%float, mem_of_list [10; 25; nan]%float).
Proof.
  apply (proj1 rate_no_reset); vm_compute; reflexivity.
Defined.

(** C4: in Delta mode, a window with at least two non-gap values reduces to
    exactly [last - previous], whether or not [last < previous] and whatever
    the step; the window [50.0, 5.0] gives [-45.0]. *)
Theorem delta_raw_difference :
  (forall (m : mem) (values : slice) (stepSize : Duration) (previous last : float),
      lastTwo (contents m values) = Some (previous, last) ->
      instantValue values false stepSize m = Returns ((last - previous)%float, m)) /\
  (forall (m : mem) (values : slice) (step1 step2 : Duration),
      instantValue values false step1 m = instantValue values false step2 m) /\
  reduce_list [50; 5]%float false Second = Returns (-45)%float.
Proof.
  split; [| split].
  - intros m values stepSize previous last Hw.
    rewrite instantValue_reduce. unfold reduce_spec, combine_spec.
    now rewrite Hw.
  - intros m values step1 step2. rewrite !instantValue_reduce.
    unfold reduce_spec, combine_spec. reflexivity.
  - vm_compute. reflexivity.
Qed.

Lemma delta_raw_difference_witness :
  instantValue (slice_of_list [50; nan; 5]%float) false 250000000%Z
               (mem_of_list [50; nan; 5]%float)
  = Returns ((5 - 50)%float, mem_of_list [50; nan; 5]%float).
Proof.
  apply (proj1 delta_raw_difference) with (previous := 50%float) (last := 5%float).
  vm_compute. reflexivity.
Defined.

(** The scan started inside the window ends on an index of the window or on
    [-1], and reads only. *)
Lemma loop_in_range (m : mem) (vals : slice) (n : nat) :
  (n <= len vals)%nat ->
  exists i, findNonNanIdx_loop vals n m = Returns (i, m) /\ (-1 <= i < Z.of_nat n)%Z.
Proof.
  induction n as [| k IH]; intros Hn.
  - exists (-1)%Z. split; [reflexivity | lia].
  - cbn [findNonNanIdx_loop]. unfold bind, index.
    replace ((0 <=? Z.of_nat k) && (Z.of_nat k <? Z.of_nat (len vals)))%Z
      with true by (symmetry; apply andb_true_iff; split; [apply Z.leb_le | apply Z.ltb_lt]; lia).
    destruct (negb (IsNaN (m (base vals + Z.to_nat (Z.of_nat k))%nat))).
    + exists (Z.of_nat k). split; [reflexivity | lia].
    + destruct IH as (i & Hi & Hr); [lia |]. exists i. split; [exact Hi | lia].
Qed.

Lemma loop_preserves_mem (vals : slice) (n : nat) :
  preserves_mem (findNonNanIdx_loop vals n).
Proof.
  intros m. induction n as [| k IH]; [reflexivity |].
  cbn [findNonNanIdx_loop]. unfold bind, index.
  destruct ((0 <=? Z.of_nat k) && (Z.of_nat k <? Z.of_nat (len vals)))%Z; [| exact I].
  destruct (negb (IsNaN (m (base vals + Z.to_nat (Z.of_nat k))%nat)));
    [reflexivity | exact IH].
Qed.

(** C5: the reducer takes its operands from two backward scans, the first
    from the newest position, the second from just before the value the
    first one found, across any number of gaps; the result is formed from the
    two values and the step alone, so [10.0, NaN, NaN, 40.0] at a step of one
    second in Rate mode gives [30.0]. *)
Theorem backward_scan_operands :
  (forall (m : mem) (values : slice) (pre : list float) (previous : float)
          (gaps1 : list float) (last : float) (gaps2 : list float),
      contents m values = pre ++ previous :: gaps1 ++ last :: gaps2 ->
      is_nan previous = false -> all_gaps gaps1 ->
      is_nan last = false -> all_gaps gaps2 ->
      let i_prev := Z.of_nat (List.length pre) in
      let i_last := Z.of_nat (List.length pre + 1 + List.length gaps1) in
      findNonNanIdx values (Z.of_nat (len values) - 1) m = Returns (i_last, m) /\
      findNonNanIdx values (i_last - 1) m = Returns (i_prev, m) /\
      index values i_last m = Returns (last, m) /\
      index values i_prev m = Returns (previous, m) /\
      forall (isRate : bool) (stepSize : Duration),
        instantValue values isRate stepSize m
        = Returns (combine_spec isRate stepSize previous last, m)) /\
  reduce_list [10; nan; nan; 40]%float true Second = Returns 30%float.
Proof.
  split; [| vm_compute; reflexivity].
  intros m values pre previous gaps1 last gaps2 Hw Hp Hg1 Hl Hg2 i_prev i_last.
  assert (Hw' : contents m values = (pre ++ previous :: gaps1) ++ last :: gaps2 ++ [])
    by (now rewrite app_nil_r, <- app_assoc).
  assert (Hlen : List.length (pre ++ previous :: gaps1)
                 = (List.length pre + 1 + List.length gaps1)%nat)
    by (rewrite length_app; cbn; lia).
  repeat split.
  - rewrite findNonNanIdx_newest. rewrite Hw' at 1. rewrite app_nil_r.
    rewrite (loop_found m values _ last Hl gaps2 [] Hg2 Hw').
    now rewrite Hlen.
  - unfold i_last. rewrite findNonNanIdx_before, <- Hlen.
    exact (loop_found m values pre previous Hp gaps1 (last :: gaps2) Hg1 Hw).
  - unfold i_last. rewrite <- Hlen.
    exact (index_split m values _ _ last Hw').
  - exact (index_split m values _ _ previous Hw).
  - intros isRate stepSize. rewrite instantValue_reduce. unfold reduce_spec.
    now rewrite Hw, (lastTwo_split _ _ _ _ _ Hp Hg1 Hl Hg2).
Qed.

Lemma backward_scan_operands_witness :
  findNonNanIdx (slice_of_list [1; 10; nan; nan; 40; nan]%float) 5
                (mem_of_list [1; 10; nan; nan; 40; nan]%float)
  = Returns (4%Z, mem_of_list [1; 10; nan; nan; 40; nan]%float).
Proof.
  refine (proj1 (proj1 backward_scan_operands
                   (mem_of_list [1; 10; nan; nan; 40; nan]%float)
                   (slice_of_list [1; 10; nan; nan; 40; nan]%float)
                   [1%float] 10%float [nan; nan]%float 40%float [nan]%float
                   _ _ _ _ _)).
  - vm_compute. reflexivity.
  - vm_compute. reflexivity.
  - repeat constructor.
  - vm_compute. reflexivity.
  - repeat constructor.
Defined.

(** The index check of the runtime is live: a scan started past the end of
    the window panics, and a store changes the memory. *)
Example findNonNanIdx_past_end :
  findNonNanIdx (slice_of_list [nan]%float) 1 (mem_of_list [nan]%float)
  = Panics "index out of range".
Proof. vm_compute. reflexivity. Qed.

Example store_changes_mem :
  ~ preserves_mem (store (slice_of_list [1]%float) 0 2%float).
Proof.
  intros H. specialize (H (mem_of_list [1]%float)). cbn in H.
  apply (f_equal (fun f => f 0%nat)) in H. vm_compute in H. discriminate H.
Qed.

(** C7: the reducer is total.  On every window, in either mode and for every
    step, it returns normally: no panic, no index outside the window; both
    scans it makes stay inside the window; and a window with fewer than two
    non-gap values yields NaN as an ordinary return value. *)
Theorem instantValue_total :
  (forall (m : mem) (values : slice) (isRate : bool) (stepSize : Duration),
      exists r, instantValue values isRate stepSize m = Returns (r, m)) /\
  (forall (m : mem) (vals : slice) (startingIdx : Z),
      (startingIdx < Z.of_nat (len vals))%Z ->
      exists i, findNonNanIdx vals startingIdx m = Returns (i, m) /\
                (-1 <= i)%Z /\ (i <= Z.max (-1) startingIdx)%Z) /\
  (forall (m : mem) (values : slice) (isRate : bool) (stepSize : Duration),
      (List.length (nonGaps (contents m values)) < 2)%nat ->
      instantValue values isRate stepSize m = Returns (NaN, m)).
Proof.
  split; [| split].
  - intros m values isRate stepSize. eexists. apply instantValue_reduce.
  - intros m vals startingIdx Hs. unfold findNonNanIdx.
    destruct (loop_in_range m vals (Z.to_nat (startingIdx + 1))) as (i & Hi & Hr); [lia |].
    exists i. split; [exact Hi | lia].
  - intros m values isRate stepSize H. rewrite instantValue_reduce. unfold reduce_spec.
    apply lastTwo_None in H. now rewrite H.
Qed.

Lemma instantValue_total_witness :
  exists i, findNonNanIdx (slice_of_list [3; nan]%float) 1 (mem_of_list [3; nan]%float)
            = Returns (i, mem_of_list [3; nan]%float) /\
            (-1 <= i)%Z /\ (i <= Z.max (-1) 1)%Z.
Proof.
  apply (proj1 (proj2 instantValue_total)). vm_compute. reflexivity.
Defined.

Lemma reducer_calls_return (calls : list (slice * bool * Duration)) (m : mem) :
  sequence_ (map reducer_call calls) m = Returns (tt, m).
Proof.
  induction calls as [| [[values isRate] stepSize] calls IH]; [reflexivity |].
  cbn [map sequence_ reducer_call]. unfold bind at 1.
  now rewrite instantValue_reduce.
Qed.

(** C8: the reducer is deterministic.  Its result is determined by the
    contents of the window, the mode and the step: two calls on windows with
    equal contents, in any memories and at any addresses, return the same
    value; and a call repeated after any sequence of other reducer calls
    returns what it returned the first time. *)
Theorem instantValue_deterministic :
  (forall (m1 m2 : mem) (values1 values2 : slice) (isRate : bool) (stepSize : Duration),
      contents m1 values1 = contents m2 values2 ->
      value (instantValue values1 isRate stepSize m1)
      = value (instantValue values2 isRate stepSize m2)) /\
  (forall (m : mem) (values : slice) (isRate : bool) (stepSize : Duration)
          (others : list (slice * bool * Duration)),
      exists r,
        (r1 <- instantValue values isRate stepSize ;;
         sequence_ (map reducer_call others) ;;;
         r2 <- instantValue values isRate stepSize ;;
         ret (r1, r2)) m = Returns ((r, r), m)).
Proof.
  split.
  - intros m1 m2 values1 values2 isRate stepSize Hw.
    rewrite !instantValue_reduce. cbn. now rewrite Hw.
  - intros m values isRate stepSize others.
    exists (reduce_spec (contents m values) isRate stepSize).
    unfold bind at 1. rewrite instantValue_reduce.
    unfold bind at 1. rewrite reducer_calls_return.
    unfold bind. now rewrite instantValue_reduce.
Qed.

Lemma instantValue_deterministic_witness :
  value (instantValue (slice_of_list [10; 20]%float) true Second
                      (mem_of_list [10; 20]%float))
  = value (instantValue (mkSlice 1 2) true Second
                        (mem_of_list [0; 10; 20; 0]%float)).
Proof.
  apply (proj1 instantValue_deterministic). vm_compute. reflexivity.
Defined.

(** C9: the reducer leaves the window as it found it.  Neither
    [instantValue] nor [findNonNanIdx] changes any cell of the memory, so
    after every call each position of the window holds the value it held
    before. *)
Theorem instantValue_frame :
  (forall (values : slice) (isRate : bool) (stepSize : Duration),
      preserves_mem (instantValue values isRate stepSize)) /\
  (forall (vals : slice) (startingIdx : Z),
      preserves_mem (findNonNanIdx vals startingIdx)) /\
  (forall (m : mem) (values : slice) (isRate : bool) (stepSize : Duration),
      exists r m',
        instantValue values isRate stepSize m = Returns (r, m') /\
        contents m' values = contents m values /\
        forall a : nat, m' a = m a).
Proof.
  split; [| split].
  - intros values isRate stepSize m. now rewrite instantValue_reduce.
  - intros vals startingIdx. apply loop_preserves_mem.
  - intros m values isRate stepSize.
    exists (reduce_spec (contents m values) isRate stepSize), m.
    split; [apply instantValue_reduce | split; reflexivity].
Qed.

(** ** The operator factory and the processor *)

(** A node that did not come from the factory can reach the panic. *)
Example Process_unknown_panics (c : Controller) (t : TimeSpec) (values : slice) (m : mem) :
  Process {| op := {| operatorType := "rate" |}; controller := c; timeSpec := t |}
          values m
  = Panics "unknown rate type".
Proof. reflexivity. Qed.

(** C6: for a mode token that is neither ["irate"] nor ["idelta"],
    [NewRateOp] returns no parameters and an error whose text carries the
    token; for each of the two literals it returns parameters and no error. *)
Theorem NewRateOp_mode_check :
  (forall (args : list iface) (optype : string),
      optype <> IRateTemporalType -> optype <> IDeltaTemporalType ->
      NewRateOp args optype = (None, Some ("unknown rate type: " ++ optype)%string)) /\
  (forall (args : list iface) (optype : string),
      optype = IRateTemporalType \/ optype = IDeltaTemporalType ->
      exists p, NewRateOp args optype = (Some p, None)).
Proof.
  split.
  - intros args optype Hr Hd. unfold NewRateOp.
    apply String.eqb_neq in Hr, Hd. now rewrite Hr, Hd.
  - intros args optype [-> | ->]; eexists; reflexivity.
Qed.

(** C10: a processor built from what [NewRateOp] returned stores one of the
    two literals as its operator type, so [Process] never takes its panic
    branch: it runs [instantValue] with [isRate] true for ["irate"] and false
    for ["idelta"], at the step of the timing specification, and returns. *)
Theorem constructed_processor_dispatch
        (args : list iface) (optype : string) (p : Params)
        (controller : Controller) (opts : Options) (values : slice) :
  fst (NewRateOp args optype) = Some p ->
  let r := Node p controller opts in
  (operatorType (op r) = IRateTemporalType \/
   operatorType (op r) = IDeltaTemporalType) /\
  (operatorType (op r) = IRateTemporalType ->
   Process r values = instantValue values true (Step (Options_TimeSpec opts))) /\
  (operatorType (op r) = IDeltaTemporalType ->
   Process r values = instantValue values false (Step (Options_TimeSpec opts))) /\
  (forall m : mem, exists v, Process r values m = Returns (v, m)).
Proof.
  intros Hp r. unfold NewRateOp in Hp.
  destruct (String.eqb_spec optype IRateTemporalType) as [-> | Hr];
    [| destruct (String.eqb_spec optype IDeltaTemporalType) as [-> | Hd]];
    cbn in Hp; try discriminate Hp; injection Hp as <-; subst r; cbn.
  - split; [now left |]. split; [reflexivity |]. split; [discriminate |].
    intros m. eexists. apply instantValue_reduce.
  - split; [now right |]. split; [discriminate |]. split; [reflexivity |].
    intros m. eexists. apply instantValue_reduce.
Qed.

(** ** Further properties of the processor and the factory *)

(** X11: for any node, however it was built, [Process] panics exactly when
    the stored operator type is neither ["irate"] nor ["idelta"], with the
    message ["unknown rate type"] and whatever the window; in every other
    case it returns and leaves the memory unchanged. *)
Theorem Process_panics_iff (r : rateNode) (values : slice) (m : mem) :
  ((exists msg, Process r values m = Panics msg) <->
   (operatorType (op r) <> IRateTemporalType /\
    operatorType (op r) <> IDeltaTemporalType)) /\
  (forall msg, Process r values m = Panics msg -> msg = "unknown rate type"%string) /\
  (forall v m', Process r values m = Returns (v, m') -> m' = m).
Proof.
  cbn [Process rateNode_Processor]. unfold rateNode_Process.
  destruct (String.eqb_spec (operatorType (op r)) IRateTemporalType) as [Hr | Hr];
    [| destruct (String.eqb_spec (operatorType (op r)) IDeltaTemporalType) as [Hd | Hd]];
    try rewrite instantValue_reduce.
  - split; [split |].
    + intros [msg H]. discriminate H.
    + intros [H _]. contradiction.
    + split; [intros msg H; discriminate H | intros v m' H; now injection H].
  - split; [split |].
    + intros [msg H]. discriminate H.
    + intros [_ H]. contradiction.
    + split; [intros msg H; discriminate H | intros v m' H; now injection H].
  - split; [split |].
    + intros _. now split.
    + intros _. eexists. reflexivity.
    + split; [intros msg H; now injection H | intros v m' H; discriminate H].
Qed.

(** X12: the error of [NewRateOp] identifies the rejected token: two tokens
    rejected with the same error are the same token, whatever the argument
    lists were. *)
Theorem NewRateOp_error_names_token (args1 args2 : list iface) (t1 t2 : string) :
  t1 <> IRateTemporalType -> t1 <> IDeltaTemporalType ->
  t2 <> IRateTemporalType -> t2 <> IDeltaTemporalType ->
  snd (NewRateOp args1 t1) = snd (NewRateOp args2 t2) ->
  t1 = t2.
Proof.
  intros Hr1 Hd1 Hr2 Hd2. unfold NewRateOp.
  apply String.eqb_neq in Hr1, Hd1, Hr2, Hd2.
  rewrite Hr1, Hd1, Hr2, Hd2. cbn. unfold Errorf. intros H.
  injection H as H. exact H.
Qed.

End Temporal.

Lemma NewRateOp_mode_check_witness :
  NewRateOp unit (fun _ : unit => tt) unit ([] : list unit) "rate"%string
  = (None, Some "unknown rate type: rate"%string).
Proof.
  apply (proj1 (NewRateOp_mode_check unit unit unit (fun _ => tt) unit unit));
    discriminate.
Defined.

Lemma constructed_processor_dispatch_witness :
  exists v,
    rateNode_Process (fun step : Duration => step)
      (Node {| params_op := {| operatorType := "irate" |};
               processorFn := newRateNode (fun opts : Duration => opts) |}
            tt Second)
      (slice_of_list [10; 20]%float) (mem_of_list [10; 20]%float)
    = Returns (v, mem_of_list [10; 20]%float).
Proof.
  refine (proj2 (proj2 (proj2
    (constructed_processor_dispatch unit Duration (fun step => step)
       Duration (fun opts => opts) unit unit [] "irate"%string
       {| params_op := {| operatorType := "irate" |};
          processorFn := newRateNode (fun opts : Duration => opts) |}
       tt Second (slice_of_list [10; 20]%float) _))) (mem_of_list [10; 20]%float)).
  reflexivity.
Defined.

(** * Further properties of the code *)

(** ** [findNonNanIdx] *)

Lemma index_in_range (m : mem) (vals : slice) (k : nat) :
  (k < len vals)%nat ->
  index vals (Z.of_nat k) m = Returns (position m vals k, m).
Proof.
  intros Hk. unfold index, position.
  replace ((0 <=? Z.of_nat k) && (Z.of_nat k <? Z.of_nat (len vals)))%Z
    with true by (symmetry; apply andb_true_iff; split; [apply Z.leb_le | apply Z.ltb_lt]; lia).
  now rewrite Nat2Z.id.
Qed.

Lemma index_out_of_range (m : mem) (vals : slice) (k : nat) :
  (len vals <= k)%nat ->
  index vals (Z.of_nat k) m = Panics "index out of range".
Proof.
  intros Hk. unfold index.
  replace (Z.of_nat k <? Z.of_nat (len vals))%Z with false
    by (symmetry; apply Z.ltb_ge; lia).
  now rewrite andb_false_r.
Qed.

(** What the loop returns, by the cells it walked over. *)
Lemma loop_greatest (m : mem) (vals : slice) (n : nat) :
  (n <= len vals)%nat ->
  exists i,
    findNonNanIdx_loop vals n m = Returns (i, m) /\
    ((i = (-1)%Z /\ forall k, (k < n)%nat -> is_nan (position m vals k) = true) \/
     ((0 <= i < Z.of_nat n)%Z /\
      is_nan (position m vals (Z.to_nat i)) = false /\
      forall k, (Z.to_nat i < k < n)%nat -> is_nan (position m vals k) = true)).
Proof.
  induction n as [| k IH]; intros Hn.
  - exists (-1)%Z. split; [reflexivity |]. left. split; [reflexivity | lia].
  - cbn [findNonNanIdx_loop]. unfold bind.
    rewrite index_in_range by lia. unfold IsNaN.
    destruct (is_nan (position m vals k)) eqn:Hk; cbn [negb].
    + destruct IH as (i & Hi & Hcase); [lia |]. exists i. split; [exact Hi |].
      destruct Hcase as [[-> Hall] | (Hr & Hv & Hall)].
      * left. split; [reflexivity |]. intros j Hj.
        destruct (Nat.eq_dec j k) as [-> | Hne]; [exact Hk | apply Hall; lia].
      * right. split; [lia |]. split; [exact Hv |]. intros j Hj.
        destruct (Nat.eq_dec j k) as [-> | Hne]; [exact Hk | apply Hall; lia].
    + exists (Z.of_nat k). split; [reflexivity |]. right.
      rewrite Nat2Z.id. split; [lia |]. split; [exact Hk | lia].
Qed.

(** X1: started inside the window, [findNonNanIdx] returns the greatest
    position at or below [startingIdx] that holds a value other than NaN,
    and [-1] exactly when every position from [0] to [startingIdx] holds
    NaN (always, when [startingIdx] is negative). *)
Theorem findNonNanIdx_greatest (m : mem) (vals : slice) (startingIdx : Z) :
  (startingIdx < Z.of_nat (len vals))%Z ->
  exists i,
    findNonNanIdx vals startingIdx m = Returns (i, m) /\
    ((i = (-1)%Z /\
      forall k, (0 <= k <= startingIdx)%Z ->
                is_nan (position m vals (Z.to_nat k)) = true) \/
     ((0 <= i <= startingIdx)%Z /\
      is_nan (position m vals (Z.to_nat i)) = false /\
      forall k, (i < k <= startingIdx)%Z ->
                is_nan (position m vals (Z.to_nat k)) = true)).
Proof.
  intros Hs. unfold findNonNanIdx.
  destruct (loop_greatest m vals (Z.to_nat (startingIdx + 1))) as (i & Hi & Hcase); [lia |].
  exists i. split; [exact Hi |].
  destruct Hcase as [[-> Hall] | (Hr & Hv & Hall)].
  - left. split; [reflexivity |]. intros k Hk. apply Hall. lia.
  - right. split; [lia |]. split; [exact Hv |]. intros k Hk. apply Hall. lia.
Qed.

Lemma findNonNanIdx_greatest_witness :
  exists i,
    findNonNanIdx (slice_of_list [1; nan; 3; nan]%float) 3
                  (mem_of_list [1; nan; 3; nan]%float)
    = Returns (i, mem_of_list [1; nan; 3; nan]%float) /\
    ((i = (-1)%Z /\
      forall k, (0 <= k <= 3)%Z ->
                is_nan (position (mem_of_list [1; nan; 3; nan]%float)
                                 (slice_of_list [1; nan; 3; nan]%float)
                                 (Z.to_nat k)) = true) \/
     ((0 <= i <= 3)%Z /\
      is_nan (position (mem_of_list [1; nan; 3; nan]%float)
                       (slice_of_list [1; nan; 3; nan]%float)
                       (Z.to_nat i)) = false /\
      forall k, (i < k <= 3)%Z ->
                is_nan (position (mem_of_list [1; nan; 3; nan]%float)
                                 (slice_of_list [1; nan; 3; nan]%float)
                                 (Z.to_nat k)) = true)).
Proof.
  apply findNonNanIdx_greatest. vm_compute. reflexivity.
Defined.

(** X2: [findNonNanIdx] has no bounds check of its own: started at or past
    the end of the slice it panics on its first read, whatever the slice
    holds. *)
Theorem findNonNanIdx_out_of_range (m : mem) (vals : slice) (startingIdx : Z) :
  (Z.of_nat (len vals) <= startingIdx)%Z ->
  findNonNanIdx vals startingIdx m = Panics "index out of range".
Proof.
  intros Hs. unfold findNonNanIdx.
  replace (Z.to_nat (startingIdx + 1)) with (S (Z.to_nat startingIdx)) by lia.
  cbn [findNonNanIdx_loop]. unfold bind.
  now rewrite index_out_of_range by lia.
Qed.

Lemma findNonNanIdx_out_of_range_witness :
  findNonNanIdx (slice_of_list [1; 2]%float) 2 (mem_of_list [1; 2]%float)
  = Panics "index out of range".
Proof.
  apply findNonNanIdx_out_of_range. vm_compute. discriminate.
Defined.

Lemma loop_agree (m1 m2 : mem) (vals : slice) (n : nat) :
  (forall k, (k < n)%nat -> position m1 vals k = position m2 vals k) ->
  value (findNonNanIdx_loop vals n m1) = value (findNonNanIdx_loop vals n m2).
Proof.
  induction n as [| k IH]; intros Hagree; [reflexivity |].
  cbn [findNonNanIdx_loop]. unfold bind.
  destruct (Nat.lt_ge_cases k (len vals)) as [Hk | Hk].
  - rewrite !index_in_range by exact Hk.
    rewrite <- (Hagree k) by lia.
    destruct (negb (IsNaN (position m1 vals k))); [reflexivity |].
    apply IH. intros j Hj. apply Hagree. lia.
  - now rewrite !index_out_of_range by exact Hk.
Qed.

(** X3: [findNonNanIdx] looks at no position above [startingIdx]: in two
    memories that agree on the positions [0 .. startingIdx] of the slice it
    gives the same outcome, the same index or the same panic. *)
Theorem findNonNanIdx_reads_below (m1 m2 : mem) (vals : slice) (startingIdx : Z) :
  (forall k, (Z.of_nat k <= startingIdx)%Z ->
             position m1 vals k = position m2 vals k) ->
  value (findNonNanIdx vals startingIdx m1) = value (findNonNanIdx vals startingIdx m2).
Proof.
  intros Hagree. unfold findNonNanIdx. apply loop_agree.
  intros k Hk. apply Hagree. lia.
Qed.

Lemma findNonNanIdx_reads_below_witness :
  value (findNonNanIdx (slice_of_list [1; nan; 5]%float) 1 (mem_of_list [1; nan; 5]%float))
  = value (findNonNanIdx (slice_of_list [1; nan; 5]%float) 1 (mem_of_list [1; nan; nan]%float)).
Proof.
  apply findNonNanIdx_reads_below. intros k Hk.
  destruct k as [| [| k]]; [reflexivity | reflexivity | lia].
Defined.

(** An index the loop returns is a position of the slice that holds a value
    other than NaN. *)
Lemma loop_result (m m' : mem) (vals : slice) (n : nat) (i : Z) :
  findNonNanIdx_loop vals n m = Returns (i, m') ->
  (0 <= i)%Z ->
  (Z.to_nat i < n)%nat /\ (Z.to_nat i < len vals)%nat /\
  is_nan (position m vals (Z.to_nat i)) = false.
Proof.
  induction n as [| k IH]; intros Hrun Hi.
  - cbn in Hrun. injection Hrun as <- _. lia.
  - cbn [findNonNanIdx_loop] in Hrun. unfold bind in Hrun.
    destruct (Nat.lt_ge_cases k (len vals)) as [Hk | Hk].
    + rewrite index_in_range in Hrun by exact Hk. unfold IsNaN in Hrun.
      destruct (is_nan (position m vals k)) eqn:Hnan; cbn [negb] in Hrun.
      * destruct (IH Hrun Hi) as (H1 & H2 & H3). repeat split; [lia | exact H2 | exact H3].
      * injection Hrun as <- _. rewrite Nat2Z.id. repeat split; [lia | exact Hk | exact Hnan].
    + rewrite index_out_of_range in Hrun by exact Hk. discriminate Hrun.
Qed.

(** X4: the scan is idempotent: started again from an index it returned, it
    returns that index at once. *)
Theorem findNonNanIdx_idempotent (m : mem) (vals : slice) (startingIdx i : Z) :
  findNonNanIdx vals startingIdx m = Returns (i, m) ->
  (0 <= i)%Z ->
  findNonNanIdx vals i m = Returns (i, m).
Proof.
  intros Hrun Hi. unfold findNonNanIdx in *.
  destruct (loop_result _ _ _ _ _ Hrun Hi) as (_ & Hlen & Hnan).
  replace (Z.to_nat (i + 1)) with (S (Z.to_nat i)) by lia.
  cbn [findNonNanIdx_loop]. unfold bind.
  rewrite index_in_range by exact Hlen. unfold IsNaN. rewrite Hnan. cbn [negb].
  unfold ret. now rewrite Z2Nat.id by exact Hi.
Qed.

Lemma findNonNanIdx_idempotent_witness :
  findNonNanIdx (slice_of_list [1; 3; nan; nan]%float) 1
                (mem_of_list [1; 3; nan; nan]%float)
  = Returns (1%Z, mem_of_list [1; 3; nan; nan]%float).
Proof.
  apply (findNonNanIdx_idempotent
           (mem_of_list [1; 3; nan; nan]%float)
           (slice_of_list [1; 3; nan; nan]%float) 3 1).
  - vm_compute. reflexivity.
  - lia.
Defined.

(** X5: the scan is monotone in where it starts: a later start inside the
    window never gives an earlier index. *)
Theorem findNonNanIdx_monotone (m : mem) (vals : slice) (s1 s2 i1 i2 : Z) :
  (s1 <= s2)%Z ->
  findNonNanIdx vals s1 m = Returns (i1, m) ->
  findNonNanIdx vals s2 m = Returns (i2, m) ->
  (i1 <= i2)%Z.
Proof.
  intros Hs H1 H2. unfold findNonNanIdx in H1, H2.
  destruct (Z.lt_ge_cases s2 (Z.of_nat (len vals))) as [Hin | Hout].
  2:{ replace (Z.to_nat (s2 + 1)) with (S (Z.to_nat s2)) in H2 by lia.
      cbn [findNonNanIdx_loop] in H2. unfold bind in H2.
      rewrite index_out_of_range in H2 by lia. discriminate H2. }
  destruct (loop_greatest m vals (Z.to_nat (s1 + 1))) as (j1 & Hj1 & C1); [lia |].
  destruct (loop_greatest m vals (Z.to_nat (s2 + 1))) as (j2 & Hj2 & C2); [lia |].
  rewrite H1 in Hj1. injection Hj1 as <-.
  rewrite H2 in Hj2. injection Hj2 as <-.
  destruct C1 as [[-> _] | (R1 & V1 & _)].
  - destruct C2 as [[-> _] | (R2 & _ & _)]; lia.
  - destruct C2 as [[-> A2] | (R2 & _ & A2)].
    + rewrite (A2 (Z.to_nat i1)) in V1 by lia. discriminate V1.
    + destruct (Z.le_gt_cases i1 i2) as [Hle | Hgt]; [exact Hle |].
      rewrite (A2 (Z.to_nat i1)) in V1 by lia. discriminate V1.
Qed.

Lemma findNonNanIdx_monotone_witness : (0 <= 2)%Z.
Proof.
  apply (findNonNanIdx_monotone
           (mem_of_list [1; nan; 3; nan]%float)
           (slice_of_list [1; nan; 3; nan]%float) 1 3 0 2).
  - lia.
  - vm_compute. reflexivity.
  - vm_compute. reflexivity.
Defined.

(** ** [instantValue] *)

Lemma lastTwo_older (older w : list float) :
  (2 <= List.length (nonGaps w))%nat -> lastTwo (older ++ w) = lastTwo w.
Proof.
  unfold lastTwo. rewrite nonGaps_app, rev_app_distr, <- (length_rev (nonGaps w)).
  destruct (rev (nonGaps w)) as [| a [| b l]]; cbn; intros H; [lia | lia | reflexivity].
Qed.

(** X6: once a window holds two non-gap values, older samples put in front
    of it do not change the result: the reducer is insensitive to how far
    back the window reaches. *)
Theorem instantValue_older_samples (m1 m2 : mem) (values1 values2 : slice)
        (older : list float) (isRate : bool) (stepSize : Duration) :
  (2 <= List.length (nonGaps (contents m1 values1)))%nat ->
  contents m2 values2 = older ++ contents m1 values1 ->
  value (instantValue values2 isRate stepSize m2)
  = value (instantValue values1 isRate stepSize m1).
Proof.
  intros Htwo Hw. rewrite !instantValue_reduce. cbn. unfold reduce_spec.
  now rewrite Hw, (lastTwo_older _ _ Htwo).
Qed.

Lemma instantValue_older_samples_witness :
  value (instantValue (slice_of_list [7; nan; 99; 10; 20]%float) true Second
                      (mem_of_list [7; nan; 99; 10; 20]%float))
  = value (instantValue (slice_of_list [10; 20]%float) true Second
                        (mem_of_list [10; 20]%float)).
Proof.
  apply (instantValue_older_samples _ _ _ _ [7; nan; 99]%float).
  - vm_compute. constructor.
  - vm_compute. reflexivity.
Defined.

(** X7: gaps do not count: two windows with the same non-gap values in the
    same order reduce to the same result, wherever their gaps lie and
    however many they are. *)
Theorem instantValue_gaps_irrelevant (m1 m2 : mem) (values1 values2 : slice)
        (isRate : bool) (stepSize : Duration) :
  nonGaps (contents m1 values1) = nonGaps (contents m2 values2) ->
  value (instantValue values1 isRate stepSize m1)
  = value (instantValue values2 isRate stepSize m2).
Proof.
  intros Hw. rewrite !instantValue_reduce. cbn. unfold reduce_spec, lastTwo.
  now rewrite Hw.
Qed.

Lemma instantValue_gaps_irrelevant_witness :
  value (instantValue (slice_of_list [10; nan; 20]%float) true Second
                      (mem_of_list [10; nan; 20]%float))
  = value (instantValue (slice_of_list [nan; 10; 20; nan; nan]%float) true Second
                        (mem_of_list [nan; 10; 20; nan; nan]%float)).
Proof.
  apply instantValue_gaps_irrelevant. vm_compute. reflexivity.
Defined.

(** ** Arithmetic on float64 *)

Lemma Prim2SF_nan_is_nan (x : float) : Prim2SF x = S754_nan -> x = nan.
Proof.
  intros H. rewrite <- (SF2Prim_Prim2SF x), H. reflexivity.
Qed.

Lemma nan_div (y : float) : (nan / y)%float = nan.
Proof.
  apply Prim2SF_nan_is_nan. rewrite div_spec. reflexivity.
Qed.

Lemma is_infinity_Prim2SF (x : float) :
  is_infinity x = true <-> exists s, Prim2SF x = S754_infinity s.
Proof.
  unfold is_infinity. rewrite eqb_spec, abs_spec.
  change (Prim2SF infinity) with (S754_infinity false).
  split.
  - destruct (Prim2SF x) as [sx | sx | | sx mx ex]; cbn; intros H;
      try discriminate H; eauto.
  - intros [s ->]. reflexivity.
Qed.

Lemma is_nan_nan_iff (x : float) : is_nan x = true <-> Prim2SF x = S754_nan.
Proof.
  unfold is_nan. rewrite eqb_spec. split.
  - intros H. destruct (Prim2SF x) as [sx | sx | | sx mx ex] eqn:E;
      [exfalso | exfalso | reflexivity | exfalso].
    + discriminate H.
    + destruct sx; discriminate H.
    + unfold SFeqb in H. cbn in H. rewrite Z.compare_refl in H.
      change (Pos.compare_cont Eq mx mx) with (mx ?= mx)%positive in H.
      rewrite Pos.compare_refl in H. destruct sx; discriminate H.
  - intros ->. reflexivity.
Qed.

(** Dividing by a zero yields NaN or an infinity. *)
Lemma div_zero_not_finite (x y : float) :
  Prim2SF y = S754_zero false -> is_finite (x / y) = false.
Proof.
  intros Hy. unfold is_finite. apply negb_false_iff, orb_true_iff.
  pose proof (div_spec x y) as Hd. rewrite Hy in Hd.
  destruct (Prim2SF x) as [sx | sx | | sx mx ex]; cbn in Hd.
  - left. now apply is_nan_nan_iff.
  - right. apply is_infinity_Prim2SF. eauto.
  - left. now apply is_nan_nan_iff.
  - right. apply is_infinity_Prim2SF. eauto.
Qed.

Lemma infinity_sub_self (x : float) : is_infinity x = true -> (x - x)%float = nan.
Proof.
  intros [s Hs]%is_infinity_Prim2SF. apply Prim2SF_nan_is_nan.
  rewrite sub_spec, Hs. now destruct s.
Qed.

Lemma infinity_ltb_self (x : float) : is_infinity x = true -> (x <? x)%float = false.
Proof.
  intros [s Hs]%is_infinity_Prim2SF. rewrite ltb_spec, Hs. now destruct s.
Qed.

(** ** [instantValue] and the arithmetic *)

(** X8: away from a counter reset the instant rate is the instant delta per
    second: on a window whose last two non-gap values do not satisfy
    [last < previous] (and on a window that has no two non-gap values), Rate
    mode returns what Delta mode returns, divided by the step in seconds. *)
Theorem rate_is_delta_per_second (m : mem) (values : slice) (stepSize : Duration) :
  (forall previous last,
      lastTwo (contents m values) = Some (previous, last) ->
      (last <? previous)%float = false) ->
  exists d,
    instantValue values false stepSize m = Returns (d, m) /\
    instantValue values true stepSize m = Returns ((d / seconds stepSize)%float, m).
Proof.
  intros Hnoreset. rewrite !instantValue_reduce. unfold reduce_spec.
  destruct (lastTwo (contents m values)) as [[previous last] |] eqn:Hw.
  - exists (last - previous)%float. split; [reflexivity |].
    unfold combine_spec. now rewrite (Hnoreset _ _ eq_refl).
  - exists nan. split; [reflexivity |]. now rewrite nan_div.
Qed.

Lemma rate_is_delta_per_second_witness :
  exists d,
    instantValue (slice_of_list [10; nan; 25]%float) false 500000000%Z
                 (mem_of_list [10; nan; 25]%float)
    = Returns (d, mem_of_list [10; nan; 25]%float) /\
    instantValue (slice_of_list [10; nan; 25]%float) true 500000000%Z
                 (mem_of_list [10; nan; 25]%float)
    = Returns ((d / seconds 500000000%Z)%float, mem_of_list [10; nan; 25]%float).
Proof.
  apply rate_is_delta_per_second. intros previous last H.
  vm_compute in H. injection H as <- <-. vm_compute. reflexivity.
Defined.

(** X9: the code does not guard against a zero step: in Rate mode with
    [stepSize = 0] the division is by [+0], so on every window the call
    returns normally and the result is NaN or an infinity, never a finite
    rate. *)
Theorem rate_zero_step_not_finite (m : mem) (values : slice) :
  exists r,
    instantValue values true 0%Z m = Returns (r, m) /\ is_finite r = false.
Proof.
  rewrite instantValue_reduce. eexists. split; [reflexivity |].
  unfold reduce_spec.
  destruct (lastTwo (contents m values)) as [[previous last] |]; [| reflexivity].
  unfold combine_spec. cbn [andb]. apply div_zero_not_finite.
  vm_compute. reflexivity.
Qed.

(** X10: NaN does not only mean too few samples: when the last two non-gap
    values are the same infinity, the difference is NaN and the reducer
    returns NaN, in Rate and in Delta mode and for every step. *)
Theorem same_infinity_is_undefined (m : mem) (values : slice) (x : float)
        (isRate : bool) (stepSize : Duration) :
  lastTwo (contents m values) = Some (x, x) ->
  is_infinity x = true ->
  instantValue values isRate stepSize m = Returns (NaN, m).
Proof.
  intros Hw Hx. rewrite instantValue_reduce. unfold reduce_spec, combine_spec.
  rewrite Hw, (infinity_ltb_self _ Hx), andb_false_r, (infinity_sub_self _ Hx).
  destruct isRate; [now rewrite nan_div | reflexivity].
Qed.

Lemma same_infinity_is_undefined_witness :
  instantValue (slice_of_list [1; infinity; nan; infinity]%float) true Second
               (mem_of_list [1; infinity; nan; infinity]%float)
  = Returns (NaN, mem_of_list [1; infinity; nan; infinity]%float).
Proof.
  apply (same_infinity_is_undefined _ _ infinity); vm_compute; reflexivity.
Defined.

Lemma Process_panics_iff_witness :
  exists msg,
    rateNode_Process (fun step : Duration => step)
      {| op := {| operatorType := "rate" |}; controller := tt; timeSpec := Second |}
      (slice_of_list [10; 20]%float) (mem_of_list [10; 20]%float)
    = Panics msg.
Proof.
  apply (proj2 (proj1 (Process_panics_iff unit Duration (fun step => step)
    {| op := {| operatorType := "rate" |}; controller := tt; timeSpec := Second |}
    (slice_of_list [10; 20]%float) (mem_of_list [10; 20]%float)))).
  split; discriminate.
Defined.

Lemma NewRateOp_error_names_token_witness : "rate"%string = "rate"%string.
Proof.
  apply (NewRateOp_error_names_token unit unit unit (fun _ => tt) unit unit
           [] [tt] "rate" "rate"); try discriminate. reflexivity.
Defined.
